(** * Failover connection establishment for the STOMP notifier

    A shallow embedding of [notifier/stomp/failover.go]: the [failOver]
    connector, its [Dial] method (transport dial, then STOMP handshake) and
    its [Connection] method (the failover loop over the broker list).

    The Go code talks to three collaborators that live outside the package:
    the [net]/[crypto/tls] dialers, [gostomp.Connect] and the [zlog] logger.
    They are modelled as a [Runtime]: functions over an abstract [World].
    Every call to a collaborator is also appended to a trace of [Event]s, so
    that "which endpoint was attempted, in which order, with which options"
    is a statement about the trace. *)

From Stdlib Require Import String List Arith ZArith Lia.
Import ListNotations.
Open Scope string_scope.
Open Scope list_scope.

(** ** Go values *)

(** Go [error] values, as far as this package can tell them apart.
    [fmt_Errorf] is a [fmt.Errorf] whose format has no [%w] verb,
    [fmt_Errorf_w] one that wraps [cause] with [%w]. *)
Inductive error : Type :=
| context_Canceled
| context_DeadlineExceeded
| ExternalError (msg : string)
| fmt_Errorf (format : string) (args : list string)
| fmt_Errorf_w (format : string) (args : list string) (cause : error).

Fixpoint error_eqb (a b : error) : bool :=
  match a, b with
  | context_Canceled, context_Canceled => true
  | context_DeadlineExceeded, context_DeadlineExceeded => true
  | ExternalError m, ExternalError m' => String.eqb m m'
  | fmt_Errorf f l, fmt_Errorf f' l' =>
      String.eqb f f' && if list_eq_dec string_dec l l' then true else false
  | fmt_Errorf_w f l c, fmt_Errorf_w f' l' c' =>
      String.eqb f f' && (if list_eq_dec string_dec l l' then true else false)
      && error_eqb c c'
  | _, _ => false
  end.

(** [errors.Is]: [target] is found somewhere along the [%w] chain. *)
Fixpoint errors_Is (e target : error) : bool :=
  error_eqb e target ||
  match e with
  | fmt_Errorf_w _ _ cause => errors_Is cause target
  | _ => false
  end.

(** An error that reports the cancellation or the expiry of a context. *)
Definition is_cancellation (e : error) : bool :=
  errors_Is e context_Canceled || errors_Is e context_DeadlineExceeded.

(** [context.Context]: what [ctx.Err()] answers, and the baggage the
    context carries, a map from keys to values without any order: what
    the lookup of each key answers. *)
Record Context : Type := mkContext {
  ctx_Err : option error;
  ctx_baggage : string -> option string
}.

(** [zlog.ContextWithValues(ctx, k, v)], for a key and a value the baggage
    accepts: a child context with the same cancellation, whose baggage has
    the member [k] set to [v], in place of the member [k] of the parent
    should there be one, and every other member as in the parent. *)
Definition zlog_ContextWithValues (ctx : Context) (k v : string) : Context :=
  {| ctx_Err := ctx_Err ctx;
     ctx_baggage := fun key =>
       if String.eqb key k then Some v else ctx_baggage ctx key |}.

(** [config.Login]. *)
Record config_Login : Type := mkLogin {
  Login : string;
  Passcode : string
}.

(** A [gostomp] connection option; the only one built here is
    [gostomp.ConnOpt.Login(login, passcode)]. *)
Inductive ConnOpt : Type :=
| ConnOpt_Login (login passcode : string).

(** [time.Duration] counts nanoseconds. *)
Definition time_Second : Z := 1000000000%Z.

(** [net.Dialer], with the one field the code sets. *)
Record net_Dialer : Type := mkNetDialer {
  Timeout : Z
}.

(** ** The collaborators *)

Class Runtime : Type := {
  World : Type;
  tls_Config : Type;
  NetConn : Type;
  StompConn : Type;
  NetConn_eq_dec : forall a b : NetConn, {a = b} + {a <> b};
  (** [DialContext] of a [net.Dialer] or of a [tls.Dialer], told apart by
      the TLS configuration the dialer carries. *)
  DialContext :
    net_Dialer -> option tls_Config -> Context -> string -> string ->
    World -> (option NetConn * option error) * World;
  (** [gostomp.Connect(conn, opts...)]. *)
  gostomp_Connect :
    option NetConn -> list ConnOpt ->
    World -> (option StompConn * option error) * World;
  (** [conn.Close()]; the code drops the error it returns. *)
  conn_Close : NetConn -> World -> World
}.

Section FailOver.

Context {R : Runtime}.

(** The value held in the local [d] of [Dial]: a [net.Dialer], or a
    [tls.Dialer] built around it. *)
Inductive dialer : Type :=
| NetDialer (nd : net_Dialer)
| TlsDialer (NetDialer_ : net_Dialer) (Config : tls_Config).

Definition dialer_is_tls (d : dialer) : bool :=
  match d with
  | NetDialer _ => false
  | TlsDialer _ _ => true
  end.

(** [d.DialContext(ctx, network, address)], dispatched on the dynamic type
    of [d]. *)
Definition dialer_DialContext (d : dialer) :=
  match d with
  | NetDialer nd => DialContext nd None
  | TlsDialer nd cfg => DialContext nd (Some cfg)
  end.

(** [type failOver struct]. *)
Record failOver : Type := mkFailOver {
  tls : option tls_Config;
  login : option config_Login;
  uris : list string
}.

(** What the collaborators were asked and what they answered. *)
Inductive Event : Type :=
| EvDialContext (d : dialer) (ctx : Context) (network address : string)
                (conn : option NetConn) (err : option error)
| EvConnect (conn : option NetConn) (opts : list ConnOpt)
            (stompConn : option StompConn) (err : option error)
| EvClose (conn : NetConn)
| EvDebug (ctx : Context) (broker : string) (err : error) (msg : string).

(** The program state: the [failOver] object the receiver [f] points to,
    the outside world, and the trace of collaborator calls so far. *)
Record State : Type := mkState {
  self : failOver;
  world : World;
  trace : list Event
}.

(** ** A small state monad *)

Definition M (A : Type) : Type := State -> A * State.

Definition ret {A} (a : A) : M A := fun s => (a, s).

Definition bind {A B} (m : M A) (k : A -> M B) : M B :=
  fun s => let (a, s') := m s in k a s'.

Notation "x <- c1 ;; c2" := (bind c1 (fun x => c2))
  (at level 61, c1 at next level, right associativity).
Notation "' pat <- c1 ;; c2" := (bind c1 (fun x => match x with pat => c2 end))
  (at level 61, pat pattern, c1 at next level, right associativity).
Notation "c1 ;; c2" := (bind c1 (fun _ => c2))
  (at level 61, right associativity).

(** Reading a field through the receiver pointer. *)
Definition load {A} (field : failOver -> A) : M A :=
  fun s => (field (self s), s).

Definition emit (ev : Event) (s : State) : State :=
  {| self := self s; world := world s; trace := trace s ++ [ev] |}.

Definition call_DialContext (d : dialer) (ctx : Context)
    (network address : string) : M (option NetConn * option error) :=
  fun s =>
    let (r, w) := dialer_DialContext d ctx network address (world s) in
    (r, emit (EvDialContext d ctx network address (fst r) (snd r))
          {| self := self s; world := w; trace := trace s |}).

Definition call_Connect (conn : option NetConn) (opts : list ConnOpt)
    : M (option StompConn * option error) :=
  fun s =>
    let (r, w) := gostomp_Connect conn opts (world s) in
    (r, emit (EvConnect conn opts (fst r) (snd r))
          {| self := self s; world := w; trace := trace s |}).

Definition call_Close (conn : NetConn) : M unit :=
  fun s =>
    (tt, emit (EvClose conn)
           {| self := self s; world := conn_Close conn (world s);
              trace := trace s |}).

(** [zlog.Debug(ctx).Str("broker", uri).Err(err).Msg(msg)]. *)
Definition zlog_Debug (ctx : Context) (broker : string) (err : error)
    (msg : string) : M unit :=
  fun s => (tt, emit (EvDebug ctx broker err msg) s).

(** ** [failOver.Dial] *)

Definition Dial (ctx : Context) (uri : string)
    : M (option StompConn * option error) :=
  let opts : list ConnOpt := [] in
  f_login <- load login ;;
  let opts :=
    match f_login with
    | Some l => opts ++ [ConnOpt_Login (Login l) (Passcode l)]
    | None => opts
    end in
  let nd := {| Timeout := 2 * time_Second |} in
  let d := NetDialer nd in
  f_tls <- load tls ;;
  let d :=
    match f_tls with
    | Some cfg => TlsDialer nd cfg
    | None => d
    end in
  ' (conn, err) <- call_DialContext d ctx "tcp" uri ;;
  match err with
  | Some e =>
      ret (None, Some (fmt_Errorf_w "failed to connect to broker @ %v: %w"
                         [uri] e))
  | None =>
      ' (stompConn, err) <- call_Connect conn opts ;;
      match err with
      | Some e =>
          match conn with
          | Some c => call_Close c
          | None => ret tt
          end ;;
          ret (None,
               Some (fmt_Errorf_w
                       "stomp connect handshake to broker @ %v failed: %w"
                       [uri] e))
      | None => ret (stompConn, err)
      end
  end.

(** ** [failOver.Connection] *)

(** The body of [for _, uri := range f.uris], over what is left of the
    slice, followed by the statement after the loop. *)
Fixpoint Connection_range (ctx : Context) (rest : list string)
    : M (option StompConn * option error) :=
  match rest with
  | [] =>
      ret (None,
           Some (fmt_Errorf
                   "exhausted all brokers and unable to make connection" []))
  | uri :: rest' =>
      ' (conn, err) <- Dial ctx uri ;;
      match err with
      | Some e =>
          zlog_Debug ctx uri e "failed to dial broker. attempting next" ;;
          Connection_range ctx rest'
      | None => ret (conn, None)
      end
  end.

Definition Connection (ctx : Context)
    : M (option StompConn * option error) :=
  let ctx := zlog_ContextWithValues ctx "component"
               "notifier/stomp/failOver.Connection" in
  f_uris <- load uris ;;
  Connection_range ctx f_uris.

End FailOver.

(** ** Reading the trace *)

Section Observations.

Context {R : Runtime}.

(** The events a run appended: what [s'] has beyond [s]. *)
Definition new_events (s s' : State) : list Event :=
  skipn (length (trace s)) (trace s').

(** The addresses handed to [DialContext], in call order. *)
Fixpoint dialed_addresses (es : list Event) : list string :=
  match es with
  | [] => []
  | EvDialContext _ _ _ address _ _ :: es' => address :: dialed_addresses es'
  | _ :: es' => dialed_addresses es'
  end.

Fixpoint remove_first (c : NetConn) (l : list NetConn) : list NetConn :=
  match l with
  | [] => []
  | x :: l' => if NetConn_eq_dec c x then l' else x :: remove_first c l'
  end.

(** Sockets that are open: a dial that answers a connection and no error
    opens one, [Close] releases it. *)
Definition socket_step (live : list NetConn) (ev : Event) : list NetConn :=
  match ev with
  | EvDialContext _ _ _ _ (Some c) None => c :: live
  | EvClose c => remove_first c live
  | _ => live
  end.

Definition open_sockets (live : list NetConn) (es : list Event)
    : list NetConn :=
  fold_left socket_step es live.

(** Every failed handshake over a connection is followed at once by the
    [Close] of that connection. *)
Fixpoint failed_handshakes_closed (es : list Event) : bool :=
  match es with
  | [] => true
  | EvConnect (Some c) _ _ (Some _) :: es' =>
      match es' with
      | EvClose c' :: _ => if NetConn_eq_dec c c' then true else false
      | _ => false
      end && failed_handshakes_closed es'
  | _ :: es' => failed_handshakes_closed es'
  end.

(** The handshake options of an event are [opts], should it be a handshake. *)
Definition handshake_with (opts : list ConnOpt) (ev : Event) : Prop :=
  match ev with
  | EvConnect _ o _ _ => o = opts
  | _ => True
  end.

(** Should the event be a dial: its dialer is TLS-wrapped exactly when
    [cfg] is there; it is then the TLS dialer built around the two-second
    [net.Dialer] and carrying [cfg], and that [net.Dialer] otherwise. *)
Definition dialed_with (cfg : option tls_Config) (ev : Event) : Prop :=
  match ev with
  | EvDialContext d _ _ _ _ _ =>
      dialer_is_tls d = match cfg with Some _ => true | None => false end /\
      match cfg with
      | Some c => d = TlsDialer {| Timeout := 2 * time_Second |} c
      | None => d = NetDialer {| Timeout := 2 * time_Second |}
      end
  | _ => True
  end.

(** A Go result pair that is either a value or an error, never both and
    never neither. *)
Definition exclusive {A} (r : option A * option error) : bool :=
  match r with
  | (Some _, None) => true
  | (None, Some _) => true
  | _ => false
  end.

(** A Go result pair that carries a value and an error at once. *)
Definition both {A} (r : option A * option error) : bool :=
  match r with
  | (Some _, Some _) => true
  | _ => false
  end.

(** A dial that was answered by an error and no connection, under a context
    whose [Err] is [err], or a log entry. *)
Definition refused_dial_or_log (err : option error) (ev : Event) : Prop :=
  match ev with
  | EvDialContext _ c _ _ None (Some _) => ctx_Err c = err
  | EvDebug _ _ _ _ => True
  | _ => False
  end.

(** The options [Dial] hands to the handshake, read off [f.login]. *)
Definition login_opts (f : failOver) : list ConnOpt :=
  match login f with
  | Some l => [ConnOpt_Login (Login l) (Passcode l)]
  | None => []
  end.

(** The dialer [Dial] ends up with in [d], read off [f.tls]. *)
Definition dialer_of (f : failOver) : dialer :=
  match tls f with
  | Some cfg => TlsDialer {| Timeout := 2 * time_Second |} cfg
  | None => NetDialer {| Timeout := 2 * time_Second |}
  end.

Definition dial_failed (uri : string) (e : error) : error :=
  fmt_Errorf_w "failed to connect to broker @ %v: %w" [uri] e.

Definition handshake_failed (uri : string) (e : error) : error :=
  fmt_Errorf_w "stomp connect handshake to broker @ %v failed: %w" [uri] e.

Definition exhausted : error :=
  fmt_Errorf "exhausted all brokers and unable to make connection" [].

Definition attempting_next : string :=
  "failed to dial broker. attempting next".

(** The four shapes one call of [Dial] can take: the events it appends and
    the pair it returns. *)
Inductive attempt (f : failOver) (ctx : Context) (uri : string)
    : list Event -> option StompConn * option error -> Prop :=
| attempt_dial_error conn e :
    attempt f ctx uri
      [EvDialContext (dialer_of f) ctx "tcp" uri conn (Some e)]
      (None, Some (dial_failed uri e))
| attempt_handshake_error c sc e :
    attempt f ctx uri
      [EvDialContext (dialer_of f) ctx "tcp" uri (Some c) None;
       EvConnect (Some c) (login_opts f) sc (Some e);
       EvClose c]
      (None, Some (handshake_failed uri e))
| attempt_handshake_error_nil sc e :
    attempt f ctx uri
      [EvDialContext (dialer_of f) ctx "tcp" uri None None;
       EvConnect None (login_opts f) sc (Some e)]
      (None, Some (handshake_failed uri e))
| attempt_success conn sc :
    attempt f ctx uri
      [EvDialContext (dialer_of f) ctx "tcp" uri conn None;
       EvConnect conn (login_opts f) sc None]
      (sc, None).

(** The shapes a walk of the loop over [us] can take. *)
Inductive walk (f : failOver) (ctx : Context)
    : list string -> list Event -> option StompConn * option error -> Prop :=
| walk_exhausted :
    walk f ctx [] [] (None, Some exhausted)
| walk_success u us es sc :
    attempt f ctx u es (sc, None) ->
    walk f ctx (u :: us) es (sc, None)
| walk_next u us es x e es' r :
    attempt f ctx u es (x, Some e) ->
    walk f ctx us es' r ->
    walk f ctx (u :: us) (es ++ EvDebug ctx u e attempting_next :: es') r.

(** The context [Connection] works under: the caller's, tagged with the
    component name. *)
Definition Connection_ctx (ctx : Context) : Context :=
  zlog_ContextWithValues ctx "component" "notifier/stomp/failOver.Connection".

(** The [Timeout] of the [net.Dialer] a dialer is or is built around. *)
Definition dialer_timeout (d : dialer) : Z :=
  match d with
  | NetDialer nd => Timeout nd
  | TlsDialer nd _ => Timeout nd
  end.

(** The errors the dialers and [gostomp.Connect] reported, in call order. *)
Fixpoint collaborator_errors (es : list Event) : list error :=
  match es with
  | [] => []
  | EvDialContext _ _ _ _ _ (Some e) :: es' => e :: collaborator_errors es'
  | EvConnect _ _ _ (Some e) :: es' => e :: collaborator_errors es'
  | _ :: es' => collaborator_errors es'
  end.

(** The debug log: the broker and the error of each entry, in order. *)
Fixpoint logged (es : list Event) : list (string * error) :=
  match es with
  | [] => []
  | EvDebug _ broker err _ :: es' => (broker, err) :: logged es'
  | _ :: es' => logged es'
  end.

(** A dial or a log entry made under the caller's context [ctx] as
    [Connection] tags it: same [Err], the member [component] of the baggage
    set to the name of the method, every other member as the caller has
    it. *)
Definition under_caller_context (ctx : Context) (ev : Event) : Prop :=
  match ev with
  | EvDialContext _ c _ _ _ _ | EvDebug c _ _ _ =>
      ctx_Err c = ctx_Err ctx /\
      ctx_baggage c "component" = Some "notifier/stomp/failOver.Connection" /\
      forall key, key <> "component" -> ctx_baggage c key = ctx_baggage ctx key
  | _ => True
  end.

(** Each dial that reports no error is followed at once by a handshake
    over the connection it answered, given the options [opts]. *)
Fixpoint handshakes_follow (opts : list ConnOpt) (es : list Event) : Prop :=
  match es with
  | [] => True
  | EvDialContext _ _ _ _ conn None :: es' =>
      match es' with
      | EvConnect conn' o _ _ :: _ => conn' = conn /\ o = opts
      | _ => False
      end /\ handshakes_follow opts es'
  | _ :: es' => handshakes_follow opts es'
  end.

(** What a run does with the brokers of [causes] when the dial of each is
    refused with the error beside it: the dial, answered by that error and
    no connection, then the log entry with the error of [Dial] about it. *)
Definition refused_run (f : failOver) (ctx : Context)
    (causes : list (string * error)) : list Event :=
  flat_map
    (fun p =>
       [EvDialContext (dialer_of f) ctx "tcp" (fst p) None (Some (snd p));
        EvDebug ctx (fst p) (dial_failed (fst p) (snd p)) attempting_next])
    causes.

(** A log entry that carries the loop's message and an error of [Dial]
    about the broker it names. *)
Definition log_entry_of_failed_attempt (ev : Event) : Prop :=
  match ev with
  | EvDebug _ broker err msg =>
      msg = "failed to dial broker. attempting next" /\
      exists cause,
        err = fmt_Errorf_w "failed to connect to broker @ %v: %w"
                [broker] cause \/
        err = fmt_Errorf_w "stomp connect handshake to broker @ %v failed: %w"
                [broker] cause
  | _ => True
  end.

(** The state [s], the connector's endpoint list replaced by [us]. *)
Definition with_uris (us : list string) (s : State) : State :=
  {| self := {| tls := tls (self s); login := login (self s); uris := us |};
     world := world s;
     trace := trace s |}.

(** The state reached once every address of [us] was dialled in turn, each
    attempt failed and was logged; [None] when one of them succeeds. *)
Fixpoint failed_attempts (ctx : Context) (us : list string) (s : State)
    : option State :=
  match us with
  | [] => Some s
  | u :: us' =>
      match Dial ctx u s with
      | ((_, Some e), s1) =>
          failed_attempts ctx us'
            (snd (zlog_Debug ctx u e attempting_next s1))
      | ((_, None), _) => None
      end
  end.

End Observations.

(** ** A scripted network, to run the code on *)

Module Sim.

Inductive Broker : Type := Refuses | RejectsHandshake | Accepts.

(** Sockets are numbered as they are opened; a connection remembers its
    number and the address it reached. A dial under a context that is
    already done answers the context's error and opens nothing, as the
    dialers of the Go library do. *)
Definition runtime (net : string -> Broker) : Runtime := {|
  World := nat;
  tls_Config := string;
  NetConn := nat * string;
  StompConn := (nat * string) * list ConnOpt;
  NetConn_eq_dec :=
    fun a b => ltac:(decide equality; [apply string_dec | apply Nat.eq_dec]);
  DialContext := fun _ _ ctx _ address w =>
    match ctx_Err ctx with
    | Some e => ((None, Some e), w)
    | None =>
        match net address with
        | Refuses => ((None, Some (ExternalError "connection refused")), w)
        | _ => ((Some (w, address), None), S w)
        end
    end;
  gostomp_Connect := fun conn opts w =>
    match conn with
    | None => ((None, Some (ExternalError "no transport")), w)
    | Some (n, address) =>
        match net address with
        | Accepts => ((Some ((n, address), opts), None), w)
        | _ => ((None, Some (ExternalError "handshake rejected")), w)
        end
    end;
  conn_Close := fun _ w => w
|}.

(** [b1] refuses the connection, [b2] rejects the handshake, every other
    address accepts. *)
Definition net3 (address : string) : Broker :=
  if String.eqb address "b1:61613" then Refuses
  else if String.eqb address "b2:61613" then RejectsHandshake
  else Accepts.

Definition net_down (_ : string) : Broker := Refuses.
Definition net_up (_ : string) : Broker := Accepts.

Definition background : Context :=
  {| ctx_Err := None; ctx_baggage := fun _ => None |}.
Definition cancelled : Context :=
  {| ctx_Err := Some context_Canceled; ctx_baggage := fun _ => None |}.

(** A caller's context that already carries baggage, a [component] member
    included. *)
Definition tagged : Context :=
  {| ctx_Err := None;
     ctx_baggage := fun key =>
       if String.eqb key "component" then Some "caller"
       else if String.eqb key "request" then Some "42"
       else None |}.

Definition creds : config_Login := {| Login := "clair"; Passcode := "secret" |}.

Definition start (net : string -> Broker) (f : @failOver (runtime net))
    : @State (runtime net) :=
  {| self := f; world := 0; trace := [] |}.

Definition three : list string := ["b1:61613"; "b2:61613"; "b3:61613"].

(** A connector with credentials, facing [net3]. *)
Definition f3 : @failOver (runtime net3) :=
  {| tls := None; login := Some creds; uris := three |}.
Definition s3 : @State (runtime net3) := start net3 f3.
Definition conn2 : @NetConn (runtime net3) := (0, "b2:61613").
Definition conn3 : @StompConn (runtime net3) :=
  ((1, "b3:61613"), [ConnOpt_Login "clair" "secret"]).

Definition transport3 : @NetConn (runtime net3) := (1, "b3:61613").

(** A TLS connector without credentials, every broker down. *)
Definition tls_down : @tls_Config (runtime net_down) := "broker.example".
Definition f_down : @failOver (runtime net_down) :=
  @mkFailOver (runtime net_down) (Some "broker.example") None three.
Definition s_down : @State (runtime net_down) := start net_down f_down.

(** A connector whose brokers are all up. *)
Definition f_up : @failOver (runtime net_up) :=
  {| tls := None; login := None; uris := three |}.
Definition s_up : @State (runtime net_up) := start net_up f_up.
Definition transport_up : @NetConn (runtime net_up) := (0, "b1:61613").
Definition conn_up : @StompConn (runtime net_up) := ((0, "b1:61613"), []).

(** A connector without endpoints. *)
Definition f_none : @failOver (runtime net_up) :=
  {| tls := None; login := None; uris := [] |}.
Definition s_none : @State (runtime net_up) := start net_up f_none.

End Sim.

(** ** How [Dial] and [Connection] run *)

Section Runs.

Context {R : Runtime}.

Lemma new_events_app (s s' : State) (es : list Event) :
  trace s' = trace s ++ es -> new_events s s' = es.
Proof.
  intros H. unfold new_events. rewrite H.
  rewrite skipn_app, skipn_all, Nat.sub_diag. reflexivity.
Qed.

Lemma dialed_addresses_app (es es' : list Event) :
  dialed_addresses (es ++ es') = dialed_addresses es ++ dialed_addresses es'.
Proof.
  induction es as [|ev es IH]; simpl; [reflexivity|].
  destruct ev; simpl; rewrite IH; reflexivity.
Qed.

Lemma remove_first_head (c : NetConn) (l : list NetConn) :
  remove_first c (c :: l) = l.
Proof. simpl. destruct (NetConn_eq_dec c c); congruence. Qed.

(** [Dial], with the monad unfolded: the three ways through its body. *)
Lemma Dial_unfold (ctx : Context) (uri : string) (s : State) :
  Dial ctx uri s =
  let f := self s in
  let dial := EvDialContext (dialer_of f) ctx "tcp" uri in
  match dialer_DialContext (dialer_of f) ctx "tcp" uri (world s) with
  | ((conn, Some e), w1) =>
      ((None, Some (dial_failed uri e)),
       mkState f w1 (trace s ++ [dial conn (Some e)]))
  | ((conn, None), w1) =>
      let connect := EvConnect conn (login_opts f) in
      match gostomp_Connect conn (login_opts f) w1 with
      | ((sc, Some e), w2) =>
          ((None, Some (handshake_failed uri e)),
           match conn with
           | Some c =>
               mkState f (conn_Close c w2)
                 (trace s ++ [dial conn None; connect sc (Some e); EvClose c])
           | None =>
               mkState f w2 (trace s ++ [dial conn None; connect sc (Some e)])
           end)
      | ((sc, None), w2) =>
          ((sc, None),
           mkState f w2 (trace s ++ [dial conn None; connect sc None]))
      end
  end.
Proof.
  unfold Dial, bind, load, call_DialContext, call_Connect, call_Close, ret,
    emit, dialer_of, login_opts, dial_failed, handshake_failed.
  cbv zeta.
  destruct (login (self s)), (tls (self s));
    cbn [self world trace fst snd app];
    (destruct (dialer_DialContext _ ctx "tcp" uri (world s))
       as [[conn [e|]] w1]; cbn [self world trace fst snd];
     [reflexivity|];
     destruct (gostomp_Connect conn _ w1) as [[sc [e|]] w2];
     cbn [self world trace fst snd];
     [destruct conn|]; cbn [self world trace fst snd];
     rewrite <- ?app_assoc; reflexivity).
Qed.

(** One call of [Dial] appends the events of one [attempt], returns what
    that attempt returns, and leaves the receiver's fields as they were. *)
Lemma Dial_attempt (ctx : Context) (uri : string) (s : State) :
  exists es,
    trace (snd (Dial ctx uri s)) = trace s ++ es /\
    self (snd (Dial ctx uri s)) = self s /\
    attempt (self s) ctx uri es (fst (Dial ctx uri s)).
Proof.
  rewrite Dial_unfold. cbv zeta.
  destruct (dialer_DialContext _ ctx "tcp" uri (world s))
    as [[conn [e|]] w1].
  - eexists; repeat split. constructor.
  - destruct (gostomp_Connect conn _ w1) as [[sc [e|]] w2].
    + destruct conn as [c|]; eexists; repeat split; constructor.
    + eexists; repeat split. constructor.
Qed.

Lemma zlog_Debug_trace (ctx : Context) (u : string) (e : error)
    (msg : string) (s : State) :
  trace (snd (zlog_Debug ctx u e msg s)) = trace s ++ [EvDebug ctx u e msg].
Proof. reflexivity. Qed.

Lemma zlog_Debug_self (ctx : Context) (u : string) (e : error)
    (msg : string) (s : State) :
  self (snd (zlog_Debug ctx u e msg s)) = self s.
Proof. reflexivity. Qed.

Lemma Connection_range_cons (ctx : Context) (u : string) (us : list string)
    (s : State) :
  Connection_range ctx (u :: us) s =
  match Dial ctx u s with
  | ((_, Some e), s1) =>
      Connection_range ctx us (snd (zlog_Debug ctx u e attempting_next s1))
  | ((conn, None), s1) => ((conn, None), s1)
  end.
Proof.
  simpl. unfold bind.
  destruct (Dial ctx u s) as [[conn [e|]] s1]; reflexivity.
Qed.

(** The loop is a [walk]: attempts in list order, a log entry after each
    failure, nothing after the first success. *)
Lemma Connection_range_walk (ctx : Context) (us : list string) :
  forall s : State,
  exists es,
    trace (snd (Connection_range ctx us s)) = trace s ++ es /\
    self (snd (Connection_range ctx us s)) = self s /\
    walk (self s) ctx us es (fst (Connection_range ctx us s)).
Proof.
  induction us as [|u us IH]; intros s.
  - exists []. simpl. rewrite app_nil_r. repeat split. constructor.
  - rewrite Connection_range_cons.
    destruct (Dial_attempt ctx u s) as (es & Ht & Hf & Ha).
    destruct (Dial ctx u s) as [[conn [e|]] s1]; simpl in Ht, Hf, Ha.
    + specialize (IH (snd (zlog_Debug ctx u e attempting_next s1))).
      destruct IH as (es' & Ht' & Hf' & Hw).
      rewrite zlog_Debug_trace in Ht'.
      rewrite zlog_Debug_self, Hf in Hf', Hw.
      exists (es ++ EvDebug ctx u e attempting_next :: es').
      repeat split.
      * rewrite Ht', Ht, <- !app_assoc. reflexivity.
      * exact Hf'.
      * eapply walk_next; eassumption.
    + exists es. simpl. repeat split; try assumption.
      apply walk_success. exact Ha.
Qed.

Lemma Connection_walk (ctx : Context) (s : State) :
  exists es,
    trace (snd (Connection ctx s)) = trace s ++ es /\
    self (snd (Connection ctx s)) = self s /\
    walk (self s) (Connection_ctx ctx) (uris (self s)) es
      (fst (Connection ctx s)).
Proof.
  unfold Connection, bind, load. cbv zeta.
  apply Connection_range_walk.
Qed.

Lemma attempt_dialed (f : failOver) (ctx : Context) (u : string)
    (es : list Event) (r : option StompConn * option error) :
  attempt f ctx u es r -> dialed_addresses es = [u].
Proof. intros H; destruct H; reflexivity. Qed.

Lemma attempt_Forall (P : Event -> Prop) (f : failOver) (ctx : Context)
    (u : string) (es : list Event) (r : option StompConn * option error) :
  (forall conn err, P (EvDialContext (dialer_of f) ctx "tcp" u conn err)) ->
  (forall conn sc err, P (EvConnect conn (login_opts f) sc err)) ->
  (forall c, P (EvClose c)) ->
  attempt f ctx u es r -> Forall P es.
Proof.
  intros Hd Hc Hx H; destruct H; repeat constructor; auto.
Qed.

Lemma walk_Forall (P : Event -> Prop) (f : failOver) (ctx : Context)
    (us : list string) (es : list Event)
    (r : option StompConn * option error) :
  (forall u conn err, P (EvDialContext (dialer_of f) ctx "tcp" u conn err)) ->
  (forall conn sc err, P (EvConnect conn (login_opts f) sc err)) ->
  (forall c, P (EvClose c)) ->
  (forall u e, P (EvDebug ctx u e attempting_next)) ->
  walk f ctx us es r -> Forall P es.
Proof.
  intros Hd Hc Hx Hl H; induction H.
  - constructor.
  - eapply attempt_Forall; eauto.
  - apply Forall_app; split.
    + eapply attempt_Forall; eauto.
    + constructor; auto.
Qed.

Lemma attempt_closes (f : failOver) (ctx : Context) (u : string)
    (es rest : list Event) (r : option StompConn * option error) :
  attempt f ctx u es r ->
  failed_handshakes_closed (es ++ rest) = failed_handshakes_closed rest.
Proof.
  intros H; destruct H; simpl; try reflexivity.
  - destruct (NetConn_eq_dec c c); [reflexivity | congruence].
  - destruct conn; reflexivity.
Qed.

Lemma walk_closes (f : failOver) (ctx : Context) (us : list string)
    (es : list Event) (r : option StompConn * option error) :
  walk f ctx us es r -> failed_handshakes_closed es = true.
Proof.
  intros H; induction H.
  - reflexivity.
  - rewrite <- (app_nil_r es). erewrite attempt_closes by eassumption.
    reflexivity.
  - erewrite attempt_closes by eassumption. simpl. exact IHwalk.
Qed.

(** A walk that returns no error ends on the successful handshake that
    produced the connection it returns, over the transport just dialled. *)
Lemma walk_success_last (f : failOver) (ctx : Context) (us : list string)
    (es : list Event) (r : option StompConn * option error) :
  walk f ctx us es r ->
  forall sc, r = (sc, None) ->
  exists es0 u conn,
    In u us /\
    es = es0 ++ [EvDialContext (dialer_of f) ctx "tcp" u conn None;
                 EvConnect conn (login_opts f) sc None].
Proof.
  intros H; induction H; intros sc0 Hr.
  - discriminate.
  - inversion Hr; subst. inversion H; subst.
    exists [], u, conn. split; [left; reflexivity | reflexivity].
  - destruct (IHwalk sc0 Hr) as (es0 & u0 & conn & Hin & He).
    exists (es ++ EvDebug ctx u e attempting_next :: es0), u0, conn.
    split; [right; exact Hin|].
    rewrite He, <- app_assoc. reflexivity.
Qed.

(** Attempts that fail one after the other are what the loop does first. *)
Lemma failed_attempts_prefix (ctx : Context) (pre rest : list string) :
  forall s s1 : State,
  failed_attempts ctx pre s = Some s1 ->
  Connection_range ctx (pre ++ rest) s = Connection_range ctx rest s1 /\
  self s1 = self s /\
  exists es, trace s1 = trace s ++ es /\ dialed_addresses es = pre.
Proof.
  induction pre as [|u pre IH]; intros s s1 H.
  - inversion H; subst. repeat split.
    exists []. rewrite app_nil_r. split; reflexivity.
  - simpl app. rewrite Connection_range_cons.
    cbn [failed_attempts] in H.
    destruct (Dial_attempt ctx u s) as (es & Ht & Hf & Ha).
    destruct (Dial ctx u s) as [[conn [e|]] s0]; [|discriminate].
    simpl in Ht, Hf, Ha.
    destruct (IH _ _ H) as (Hc & Hs & es' & Ht' & Hd).
    rewrite zlog_Debug_self in Hs. rewrite zlog_Debug_trace in Ht'.
    repeat split.
    + exact Hc.
    + congruence.
    + exists (es ++ EvDebug ctx u e attempting_next :: es'). split.
      * rewrite Ht', Ht, <- !app_assoc. reflexivity.
      * rewrite dialed_addresses_app. simpl.
        rewrite (attempt_dialed _ _ _ _ _ Ha), Hd. reflexivity.
Qed.

Lemma dialer_DialContext_of (f : failOver) :
  dialer_DialContext (dialer_of f) =
  DialContext {| Timeout := 2 * time_Second |} (tls f).
Proof. unfold dialer_of. destruct (tls f); reflexivity. Qed.

(** The events of a call of [Dial], from what the collaborators answer: the
    dial, always; then, the dial reporting no error, the handshake over the
    connection dialled, with the login options. *)
Lemma Dial_events (ctx : Context) (uri : string) (s : State) :
  exists rest,
    new_events s (snd (Dial ctx uri s)) =
    EvDialContext (dialer_of (self s)) ctx "tcp" uri
      (fst (fst (dialer_DialContext (dialer_of (self s)) ctx "tcp" uri
                   (world s))))
      (snd (fst (dialer_DialContext (dialer_of (self s)) ctx "tcp" uri
                   (world s))))
    :: match snd (fst (dialer_DialContext (dialer_of (self s)) ctx "tcp" uri
                         (world s))) with
       | Some _ => []
       | None =>
           EvConnect
             (fst (fst (dialer_DialContext (dialer_of (self s)) ctx "tcp" uri
                          (world s))))
             (login_opts (self s))
             (fst (fst (gostomp_Connect
                          (fst (fst (dialer_DialContext (dialer_of (self s))
                                       ctx "tcp" uri (world s))))
                          (login_opts (self s))
                          (snd (dialer_DialContext (dialer_of (self s)) ctx
                                  "tcp" uri (world s))))))
             (snd (fst (gostomp_Connect
                          (fst (fst (dialer_DialContext (dialer_of (self s))
                                       ctx "tcp" uri (world s))))
                          (login_opts (self s))
                          (snd (dialer_DialContext (dialer_of (self s)) ctx
                                  "tcp" uri (world s))))))
           :: rest
       end.
Proof.
  rewrite Dial_unfold. cbv zeta.
  destruct (dialer_DialContext _ ctx "tcp" uri (world s))
    as [[conn [e|]] w1]; cbn [fst snd].
  - exists []. apply new_events_app. reflexivity.
  - destruct (gostomp_Connect conn _ w1) as [[sc [e|]] w2]; cbn [fst snd].
    + destruct conn as [c|].
      * exists [EvClose c]. apply new_events_app. reflexivity.
      * exists []. apply new_events_app. reflexivity.
    + exists []. apply new_events_app. reflexivity.
Qed.

(** A run of [Connection] over a list that is not empty begins with the
    call of [Dial] on the first endpoint. *)
Lemma Connection_starts_with_Dial (ctx : Context) (s : State) :
  match uris (self s) with
  | [] => new_events s (snd (Connection ctx s)) = []
  | u :: _ =>
      exists rest,
        new_events s (snd (Connection ctx s)) =
        new_events s (snd (Dial (Connection_ctx ctx) u s)) ++ rest
  end.
Proof.
  change (Connection ctx s)
    with (Connection_range (Connection_ctx ctx) (uris (self s)) s).
  destruct (uris (self s)) as [|u us].
  - apply new_events_app. simpl. rewrite app_nil_r. reflexivity.
  - rewrite Connection_range_cons.
    destruct (Dial_attempt (Connection_ctx ctx) u s) as (es & Ht & _ & _).
    rewrite (new_events_app _ _ _ Ht).
    destruct (Dial (Connection_ctx ctx) u s) as [[conn [e|]] s1];
      cbn [fst snd] in Ht.
    + destruct (Connection_range_walk (Connection_ctx ctx) us
                  (snd (zlog_Debug (Connection_ctx ctx) u e attempting_next
                          s1)))
        as (es' & Ht' & _ & _).
      rewrite zlog_Debug_trace, Ht in Ht'.
      exists (EvDebug (Connection_ctx ctx) u e attempting_next :: es').
      apply new_events_app. rewrite Ht', <- !app_assoc. reflexivity.
    + exists []. cbn [snd]. rewrite app_nil_r.
      apply new_events_app. exact Ht.
Qed.

Lemma attempt_handshakes_follow (f : failOver) (ctx : Context) (u : string)
    (es rest : list Event) (r : option StompConn * option error) :
  attempt f ctx u es r ->
  handshakes_follow (login_opts f) rest ->
  handshakes_follow (login_opts f) (es ++ rest).
Proof.
  intros H Hr; destruct H; simpl; auto.
Qed.

Lemma walk_handshakes_follow (f : failOver) (ctx : Context)
    (us : list string) (es : list Event)
    (r : option StompConn * option error) :
  walk f ctx us es r -> handshakes_follow (login_opts f) es.
Proof.
  intros H; induction H.
  - exact I.
  - rewrite <- (app_nil_r es).
    eapply attempt_handshakes_follow; [eassumption | exact I].
  - eapply attempt_handshakes_follow; [eassumption|]. exact IHwalk.
Qed.

End Runs.

(** ** The failover contract *)

Section Contract.

Context {R : Runtime}.

Lemma Connection_unfold (ctx : Context) (s : State) :
  Connection ctx s = Connection_range (Connection_ctx ctx) (uris (self s)) s.
Proof. reflexivity. Qed.

(** C1. When the attempts on the endpoints before endpoint [u] fail one
    after the other and the attempt on [u] then succeeds, [Connection]
    returns the connection of that attempt, the addresses dialled are those
    before [u] followed by [u], once each and in list order, and no address
    after [u] is dialled: the run ends on the dial of [u] and the handshake
    that produced the connection returned. *)
Theorem Connection_first_success (ctx : Context) (s s_k s' : State)
    (pre post : list string) (u : string) (sc : option StompConn) :
  uris (self s) = pre ++ u :: post ->
  failed_attempts (Connection_ctx ctx) pre s = Some s_k ->
  Dial (Connection_ctx ctx) u s_k = ((sc, None), s') ->
  Connection ctx s = ((sc, None), s') /\
  dialed_addresses (new_events s s') = pre ++ [u] /\
  exists es conn,
    new_events s s' =
    es ++ [EvDialContext (dialer_of (self s)) (Connection_ctx ctx) "tcp" u
             conn None;
           EvConnect conn (login_opts (self s)) sc None].
Proof.
  intros Hu Hfail Hdial.
  destruct (failed_attempts_prefix _ pre (u :: post) s s_k Hfail)
    as (Hc & Hself & es & Ht & Hd).
  destruct (Dial_attempt (Connection_ctx ctx) u s_k) as (es_k & Ht' & _ & Ha).
  rewrite Hdial in Ht', Ha. simpl in Ht', Ha. rewrite Hself in Ha.
  assert (Hnew : new_events s s' = es ++ es_k).
  { apply new_events_app. rewrite Ht', Ht, app_assoc. reflexivity. }
  split; [|split].
  - rewrite Connection_unfold, Hu, Hc, Connection_range_cons, Hdial.
    reflexivity.
  - rewrite Hnew, dialed_addresses_app, Hd.
    rewrite (attempt_dialed _ _ _ _ _ Ha). reflexivity.
  - inversion Ha; subst. exists es, conn. exact Hnew.
Qed.

(** C2. When the attempts on all the endpoints fail one after the other,
    [Connection] returns no connection and the exhaustion error, and the
    addresses dialled are exactly the endpoint list: each endpoint once, in
    list order. *)
Theorem Connection_all_fail (ctx : Context) (s s_n : State) :
  failed_attempts (Connection_ctx ctx) (uris (self s)) s = Some s_n ->
  Connection ctx s = ((None, Some exhausted), s_n) /\
  dialed_addresses (new_events s s_n) = uris (self s).
Proof.
  intros Hfail.
  destruct (failed_attempts_prefix _ _ [] s s_n Hfail)
    as (Hc & _ & es & Ht & Hd).
  rewrite app_nil_r in Hc. split.
  - rewrite Connection_unfold, Hc. reflexivity.
  - rewrite (new_events_app _ _ _ Ht). exact Hd.
Qed.

(** C5. On an empty endpoint list [Connection] returns no connection and
    the exhaustion error, and the state is untouched: nothing was dialled,
    nothing was appended to the trace. *)
Theorem Connection_no_endpoints (ctx : Context) (s : State) :
  uris (self s) = [] ->
  Connection ctx s = ((None, Some exhausted), s) /\
  new_events s (snd (Connection ctx s)) = [].
Proof.
  intros Hu. rewrite Connection_unfold, Hu. simpl. split; [reflexivity|].
  apply new_events_app. rewrite app_nil_r. reflexivity.
Qed.

(** C6. A result of [Dial] without error comes straight after a handshake
    that succeeded, over the transport dialled in that call, and is the
    connection that handshake produced; the same holds for a result of
    [Connection] without error, whose run ends on that handshake. *)
Theorem no_connection_without_handshake (ctx : Context) (uri : string)
    (s : State) (sc : option StompConn) :
  (fst (Dial ctx uri s) = (sc, None) ->
   exists conn,
     new_events s (snd (Dial ctx uri s)) =
     [EvDialContext (dialer_of (self s)) ctx "tcp" uri conn None;
      EvConnect conn (login_opts (self s)) sc None]) /\
  (fst (Connection ctx s) = (sc, None) ->
   exists es u conn,
     In u (uris (self s)) /\
     new_events s (snd (Connection ctx s)) =
     es ++ [EvDialContext (dialer_of (self s)) (Connection_ctx ctx) "tcp" u
              conn None;
            EvConnect conn (login_opts (self s)) sc None]).
Proof.
  split; intros Hr.
  - destruct (Dial_attempt ctx uri s) as (es & Ht & _ & Ha).
    rewrite Hr in Ha. inversion Ha; subst.
    exists conn. apply new_events_app. exact Ht.
  - destruct (Connection_walk ctx s) as (es & Ht & _ & Hw).
    destruct (walk_success_last _ _ _ _ _ Hw sc Hr) as (es0 & u & conn & Hin & He).
    exists es0, u, conn. split; [exact Hin|].
    rewrite (new_events_app _ _ _ Ht). exact He.
Qed.

(** C7. The options of the handshakes are read off the connector's login:
    the one login option with the configured login and passcode when
    credentials are configured, no option at all when they are not. Every
    handshake made by a call of [Dial] or of [Connection] is given these
    options and no others. And the handshakes are made: in a call of [Dial]
    whose dial reports no error, [gostomp.Connect] is called next, over the
    connection dialled and with these options, and the event records its
    answer; in a run of [Connection] every dial that reports no error is
    followed at once by such a handshake, and the run begins with the call
    of [Dial] on the first endpoint. *)
Theorem credentials_on_every_handshake (ctx : Context) (uri : string)
    (s : State) :
  Forall (handshake_with
            match login (self s) with
            | Some l => [ConnOpt_Login (Login l) (Passcode l)]
            | None => []
            end)
    (new_events s (snd (Dial ctx uri s))) /\
  Forall (handshake_with
            match login (self s) with
            | Some l => [ConnOpt_Login (Login l) (Passcode l)]
            | None => []
            end)
    (new_events s (snd (Connection ctx s))) /\
  match dialer_DialContext (dialer_of (self s)) ctx "tcp" uri (world s) with
  | ((_, Some _), _) => True
  | ((conn, None), w1) =>
      exists rest,
        new_events s (snd (Dial ctx uri s)) =
        EvDialContext (dialer_of (self s)) ctx "tcp" uri conn None
        :: EvConnect conn
             match login (self s) with
             | Some l => [ConnOpt_Login (Login l) (Passcode l)]
             | None => []
             end
             (fst (fst (gostomp_Connect conn
                          match login (self s) with
                          | Some l => [ConnOpt_Login (Login l) (Passcode l)]
                          | None => []
                          end w1)))
             (snd (fst (gostomp_Connect conn
                          match login (self s) with
                          | Some l => [ConnOpt_Login (Login l) (Passcode l)]
                          | None => []
                          end w1)))
        :: rest
  end /\
  handshakes_follow
    match login (self s) with
    | Some l => [ConnOpt_Login (Login l) (Passcode l)]
    | None => []
    end
    (new_events s (snd (Connection ctx s))) /\
  match uris (self s) with
  | [] => new_events s (snd (Connection ctx s)) = []
  | u :: _ =>
      exists rest,
        new_events s (snd (Connection ctx s)) =
        new_events s (snd (Dial (Connection_ctx ctx) u s)) ++ rest
  end.
Proof.
  change (match login (self s) with
          | Some l => [ConnOpt_Login (Login l) (Passcode l)]
          | None => []
          end) with (login_opts (self s)).
  split; [|split; [|split; [|split]]].
  - destruct (Dial_attempt ctx uri s) as (es & Ht & _ & Ha).
    rewrite (new_events_app _ _ _ Ht).
    eapply attempt_Forall; try eassumption; simpl; auto.
  - destruct (Connection_walk ctx s) as (es & Ht & _ & Hw).
    rewrite (new_events_app _ _ _ Ht).
    eapply walk_Forall; try eassumption; simpl; auto.
  - destruct (Dial_events ctx uri s) as (rest & He).
    destruct (dialer_DialContext (dialer_of (self s)) ctx "tcp" uri (world s))
      as [[conn [e|]] w1]; [exact I|].
    exists rest. exact He.
  - destruct (Connection_walk ctx s) as (es & Ht & _ & Hw).
    rewrite (new_events_app _ _ _ Ht).
    eapply walk_handshakes_follow; eassumption.
  - apply Connection_starts_with_Dial.
Qed.

(** C8. The dialer is chosen by the connector's TLS field alone: every dial
    made by a call of [Dial] or of [Connection] goes through a TLS dialer
    carrying the connector's TLS configuration when that field is set, and
    through the plain dialer when it is not. And the dials are made: every
    call of [Dial] begins with a dial through that dialer, answered by the
    TLS [DialContext] with that configuration when the field is set and by
    the plain one when it is not; a run of [Connection] begins with the call
    of [Dial] on the first endpoint. *)
Theorem tls_selected_by_config (ctx : Context) (uri : string) (s : State) :
  Forall (dialed_with (tls (self s))) (new_events s (snd (Dial ctx uri s))) /\
  Forall (dialed_with (tls (self s)))
    (new_events s (snd (Connection ctx s))) /\
  (exists rest,
      new_events s (snd (Dial ctx uri s)) =
      EvDialContext
        match tls (self s) with
        | Some cfg => TlsDialer {| Timeout := 2 * time_Second |} cfg
        | None => NetDialer {| Timeout := 2 * time_Second |}
        end ctx "tcp" uri
        (fst (fst (DialContext {| Timeout := 2 * time_Second |}
                     (tls (self s)) ctx "tcp" uri (world s))))
        (snd (fst (DialContext {| Timeout := 2 * time_Second |}
                     (tls (self s)) ctx "tcp" uri (world s))))
      :: rest) /\
  match uris (self s) with
  | [] => new_events s (snd (Connection ctx s)) = []
  | u :: _ =>
      exists rest,
        new_events s (snd (Connection ctx s)) =
        new_events s (snd (Dial (Connection_ctx ctx) u s)) ++ rest
  end.
Proof.
  assert (Hd : forall c u conn err,
             dialed_with (tls (self s))
               (EvDialContext (dialer_of (self s)) c "tcp" u conn err)).
  { intros. unfold dialed_with, dialer_of.
    destruct (tls (self s)); split; reflexivity. }
  split; [|split; [|split]].
  - destruct (Dial_attempt ctx uri s) as (es & Ht & _ & Ha).
    rewrite (new_events_app _ _ _ Ht).
    eapply attempt_Forall; [| | | exact Ha]; intros; try apply Hd; exact I.
  - destruct (Connection_walk ctx s) as (es & Ht & _ & Hw).
    rewrite (new_events_app _ _ _ Ht).
    eapply walk_Forall; [| | | | exact Hw]; intros; try apply Hd; exact I.
  - destruct (Dial_events ctx uri s) as (rest & He).
    rewrite dialer_DialContext_of in He.
    change (match tls (self s) with
            | Some cfg => TlsDialer {| Timeout := 2 * time_Second |} cfg
            | None => NetDialer {| Timeout := 2 * time_Second |}
            end) with (dialer_of (self s)).
    eexists. exact He.
  - apply Connection_starts_with_Dial.
Qed.

(** C9. Neither [Dial] nor [Connection] writes to the connector: the
    endpoint list, the credentials and the TLS configuration the receiver
    points to are the same after the call as before it. *)
Theorem connector_unchanged (ctx : Context) (uri : string) (s : State) :
  self (snd (Dial ctx uri s)) = self s /\
  self (snd (Connection ctx s)) = self s.
Proof.
  split.
  - destruct (Dial_attempt ctx uri s) as (es & _ & Hf & _). exact Hf.
  - destruct (Connection_walk ctx s) as (es & _ & Hf & _). exact Hf.
Qed.

Lemma attempt_not_both (f : failOver) (ctx : Context) (u : string)
    (es : list Event) (r : option StompConn * option error) :
  attempt f ctx u es r -> both r = false.
Proof. intros H; destruct H; try reflexivity. destruct sc; reflexivity. Qed.

Lemma walk_not_both (f : failOver) (ctx : Context) (us : list string)
    (es : list Event) (r : option StompConn * option error) :
  walk f ctx us es r -> both r = false.
Proof.
  intros H; induction H; try assumption; try reflexivity.
  eapply attempt_not_both; eassumption.
Qed.

Section ConnectContract.

(** What [gostomp.Connect] promises, as Go functions do: when it reports
    no error, the connection it returns is not nil. *)
Hypothesis Connect_contract :
  forall conn opts w,
    snd (fst (gostomp_Connect conn opts w)) = None ->
    fst (fst (gostomp_Connect conn opts w)) <> None.

Lemma Dial_exclusive (ctx : Context) (uri : string) (s : State) :
  exclusive (fst (Dial ctx uri s)) = true.
Proof.
  rewrite Dial_unfold. cbv zeta.
  destruct (dialer_DialContext _ ctx "tcp" uri (world s))
    as [[conn [e|]] w1]; [reflexivity|].
  pose proof (Connect_contract conn (login_opts (self s)) w1) as Hc.
  destruct (gostomp_Connect conn _ w1) as [[sc [e|]] w2]; [reflexivity|].
  simpl in Hc. destruct sc; [reflexivity|]. exfalso. apply Hc; reflexivity.
Qed.

Lemma Connection_range_exclusive (ctx : Context) (us : list string) :
  forall s : State, exclusive (fst (Connection_range ctx us s)) = true.
Proof.
  induction us as [|u us IH]; intros s; [reflexivity|].
  rewrite Connection_range_cons.
  pose proof (Dial_exclusive ctx u s) as Hd.
  destruct (Dial ctx u s) as [[conn [e|]] s1]; [apply IH | exact Hd].
Qed.

End ConnectContract.

(** C10. [Dial] and [Connection] never return a connection together with
    an error; and, [gostomp.Connect] returning a connection whenever it
    reports no error, each of them returns either a connection and no
    error, or no connection and an error. *)
Theorem results_exclusive (ctx : Context) (uri : string) (s : State) :
  both (fst (Dial ctx uri s)) = false /\
  both (fst (Connection ctx s)) = false /\
  ((forall conn opts w,
       snd (fst (gostomp_Connect conn opts w)) = None ->
       fst (fst (gostomp_Connect conn opts w)) <> None) ->
   exclusive (fst (Dial ctx uri s)) = true /\
   exclusive (fst (Connection ctx s)) = true).
Proof.
  split; [|split].
  - destruct (Dial_attempt ctx uri s) as (es & _ & _ & Ha).
    eapply attempt_not_both; eassumption.
  - destruct (Connection_walk ctx s) as (es & _ & _ & Hw).
    eapply walk_not_both; eassumption.
  - intros H. split.
    + apply Dial_exclusive; exact H.
    + rewrite Connection_unfold. apply Connection_range_exclusive; exact H.
Qed.

(** C4. In a call of [Dial] whose transport dial answered the connection
    [c] and whose handshake over [c] failed, the call does three things and
    no more: the dial, the handshake, and the [Close] of [c]; it returns the
    handshake error, and every socket it opened is closed again. In any run
    of [Connection], each failed handshake over a connection is followed at
    once by the [Close] of that connection, hence before the next dial. *)
Theorem failed_handshake_closes_transport (ctx cx ctx0 : Context)
    (uri nw a : string) (s s0 : State) (d : dialer) (c : NetConn)
    (o : list ConnOpt) (r : option StompConn) (e : error) :
  In (EvDialContext d cx nw a (Some c) None)
    (new_events s (snd (Dial ctx uri s))) ->
  In (EvConnect (Some c) o r (Some e))
    (new_events s (snd (Dial ctx uri s))) ->
  fst (Dial ctx uri s) = (None, Some (handshake_failed uri e)) /\
  new_events s (snd (Dial ctx uri s)) =
    [EvDialContext d cx nw a (Some c) None;
     EvConnect (Some c) o r (Some e);
     EvClose c] /\
  (forall live,
      open_sockets live (new_events s (snd (Dial ctx uri s))) = live) /\
  failed_handshakes_closed (new_events s0 (snd (Connection ctx0 s0))) = true.
Proof.
  intros Hd Hc.
  destruct (Dial_attempt ctx uri s) as (es & Ht & _ & Ha).
  rewrite (new_events_app _ _ _ Ht) in *.
  assert (Hw : failed_handshakes_closed
                 (new_events s0 (snd (Connection ctx0 s0))) = true).
  { destruct (Connection_walk ctx0 s0) as (es0 & Ht0 & _ & Hw).
    rewrite (new_events_app _ _ _ Ht0). eapply walk_closes; eassumption. }
  inversion Ha as [conn e' He Hr | c' sc e' He Hr | sc e' He Hr
                  | conn sc He Hr]; subst es; simpl in Hd, Hc;
    repeat match goal with
           | H : _ \/ _ |- _ => destruct H
           | H : False |- _ => destruct H
           | H : EvDialContext _ _ _ _ _ _ = _ |- _ => inversion H; clear H
           | H : EvConnect _ _ _ _ = _ |- _ => inversion H; clear H
           | H : EvClose _ = _ |- _ => inversion H; clear H
           end; subst.
  repeat split; try exact Hw.
  intros live. unfold open_sockets. simpl. apply remove_first_head.
Qed.

(** C3, as the code has it. Under a caller context that is already done,
    and with dialers that answer a done context by an error and no
    connection, [Connection] returns the exhaustion error, which is not a
    cancellation error; it hands every endpoint to the dialer, once each and
    in list order, under a context that is still done, and logs each of
    these failures: the run is, for each endpoint in turn, the refused dial
    and then the log entry naming the endpoint with the error of [Dial]
    that wraps the dialer's, and nothing else; so no handshake is made and
    no socket is opened. *)
Theorem Connection_under_done_context (ctx : Context) (s : State) :
  ctx_Err ctx <> None ->
  (forall nd cfg c nw a w,
      ctx_Err c <> None ->
      exists e, fst (DialContext nd cfg c nw a w) = (None, Some e)) ->
  fst (Connection ctx s) = (None, Some exhausted) /\
  is_cancellation exhausted = false /\
  dialed_addresses (new_events s (snd (Connection ctx s))) = uris (self s) /\
  Forall (refused_dial_or_log (ctx_Err ctx))
    (new_events s (snd (Connection ctx s))) /\
  (forall live,
      open_sockets live (new_events s (snd (Connection ctx s))) = live) /\
  (exists causes,
      map fst causes = uris (self s) /\
      new_events s (snd (Connection ctx s)) =
      refused_run (self s) (Connection_ctx ctx) causes) /\
  map fst (logged (new_events s (snd (Connection ctx s)))) = uris (self s).
Proof.
  intros Hdone Hrefuse.
  assert (Hrange : forall us s1,
    exists causes,
      map fst causes = us /\
      trace (snd (Connection_range (Connection_ctx ctx) us s1)) =
        trace s1 ++ refused_run (self s1) (Connection_ctx ctx) causes /\
      fst (Connection_range (Connection_ctx ctx) us s1) =
        (None, Some exhausted)).
  { induction us as [|u us IH]; intros s1.
    - exists []. simpl. rewrite app_nil_r. repeat split.
    - rewrite Connection_range_cons, Dial_unfold. cbv zeta.
      assert (Hc : ctx_Err (Connection_ctx ctx) <> None) by exact Hdone.
      assert (Hdial : exists e,
                 fst (dialer_DialContext (dialer_of (self s1))
                        (Connection_ctx ctx) "tcp" u (world s1)) =
                 (None, Some e)).
      { unfold dialer_DialContext. destruct (dialer_of (self s1));
          apply Hrefuse; exact Hc. }
      destruct Hdial as (e & He).
      destruct (dialer_DialContext _ _ "tcp" u (world s1)) as [[conn err] w1].
      simpl in He. inversion He; subst conn err.
      match goal with
      | |- context [Connection_range _ us ?s2] =>
          destruct (IH s2) as (causes & Hm & Ht & Hr)
      end.
      rewrite zlog_Debug_trace in Ht. cbn [trace] in Ht.
      exists ((u, e) :: causes). split; [|split].
      + simpl. rewrite Hm. reflexivity.
      + rewrite Ht, <- !app_assoc. reflexivity.
      + exact Hr. }
  assert (Hshape : forall f c causes,
    dialed_addresses (refused_run f c causes) = map fst causes /\
    map fst (logged (refused_run f c causes)) = map fst causes /\
    Forall (refused_dial_or_log (ctx_Err c)) (refused_run f c causes) /\
    forall live, open_sockets live (refused_run f c causes) = live).
  { intros f c causes. induction causes as [|[u e] causes IH].
    - repeat split. constructor.
    - destruct IH as (Hd & Hl & Hall & Hopen). simpl. rewrite Hd, Hl.
      repeat split.
      + constructor; [reflexivity|]. constructor; [exact I | exact Hall].
      + exact Hopen. }
  destruct (Hrange (uris (self s)) s) as (causes & Hm & Ht & Hr).
  rewrite <- Connection_unfold in Ht, Hr.
  rewrite (new_events_app _ _ _ Ht).
  destruct (Hshape (self s) (Connection_ctx ctx) causes)
    as (Hd & Hl & Hall & Hopen).
  split; [exact Hr|]. split; [reflexivity|].
  split; [rewrite Hd; exact Hm|].
  split; [exact Hall|].
  split; [exact Hopen|].
  split; [exists causes; split; [exact Hm | reflexivity]|].
  rewrite Hl. exact Hm.
Qed.

End Contract.

(** ** Further properties of [Dial] and [Connection] *)

Section Behaviour.

Context {R : Runtime}.

Lemma error_eqb_refl (e : error) : error_eqb e e = true.
Proof.
  induction e; simpl; try reflexivity.
  - apply String.eqb_refl.
  - rewrite String.eqb_refl. destruct (list_eq_dec string_dec args args);
      [reflexivity | congruence].
  - rewrite String.eqb_refl, IHe.
    destruct (list_eq_dec string_dec args args); [reflexivity | congruence].
Qed.

Lemma error_eqb_eq (a b : error) : error_eqb a b = true -> a = b.
Proof.
  revert b. induction a; intros b H; destruct b; cbn [error_eqb] in H;
    try discriminate; try reflexivity.
  - apply String.eqb_eq in H. congruence.
  - apply andb_prop in H. destruct H as [Hf Hl].
    apply String.eqb_eq in Hf.
    destruct (list_eq_dec string_dec args args0); [congruence|discriminate].
  - apply andb_prop in H. destruct H as [H Hc].
    apply andb_prop in H. destruct H as [Hf Hl].
    apply String.eqb_eq in Hf. apply IHa in Hc.
    destruct (list_eq_dec string_dec args args0); [congruence|discriminate].
Qed.

Lemma errors_Is_refl (e : error) : errors_Is e e = true.
Proof. destruct e; cbn [errors_Is]; rewrite error_eqb_refl; reflexivity. Qed.

Lemma errors_Is_wrap (format : string) (args : list string)
    (cause target : error) :
  errors_Is cause target = true ->
  errors_Is (fmt_Errorf_w format args cause) target = true.
Proof.
  intros H. cbn [errors_Is]. rewrite H. apply Bool.orb_true_r.
Qed.

Lemma open_sockets_app (live : list NetConn) (es es' : list Event) :
  open_sockets live (es ++ es') = open_sockets (open_sockets live es) es'.
Proof. unfold open_sockets. apply fold_left_app. Qed.

Lemma logged_app (es es' : list Event) :
  logged (es ++ es') = logged es ++ logged es'.
Proof.
  induction es as [|ev es IH]; simpl; [reflexivity|].
  destruct ev; simpl; rewrite IH; reflexivity.
Qed.

Lemma attempt_logged (f : failOver) (ctx : Context) (u : string)
    (es : list Event) (r : option StompConn * option error) :
  attempt f ctx u es r -> logged es = [].
Proof. intros H; destruct H; reflexivity. Qed.

Lemma attempt_error_shape (f : failOver) (ctx : Context) (u : string)
    (es : list Event) (x : option StompConn) (e : error) :
  attempt f ctx u es (x, Some e) ->
  x = None /\
  exists cause,
    collaborator_errors es = [cause] /\
    (e = dial_failed u cause \/ e = handshake_failed u cause).
Proof.
  intros H; inversion H; subst; (split; [reflexivity|]); eexists;
    (split; [reflexivity|]); auto.
Qed.

Lemma attempt_error_sockets (f : failOver) (ctx : Context) (u : string)
    (es : list Event) (x : option StompConn) (e : error)
    (live : list NetConn) :
  attempt f ctx u es (x, Some e) -> open_sockets live es = live.
Proof.
  intros H; inversion H; subst; unfold open_sockets; simpl;
    try reflexivity.
  - destruct conn; reflexivity.
  - apply remove_first_head.
Qed.

(** X1. An error returned by [Dial] comes with no connection, wraps the one
    error a collaborator reported in that call, names the address, and lets
    [errors.Is] find whatever it finds in that cause, the cause included. *)
Theorem Dial_error_wraps_cause (ctx : Context) (uri : string) (s : State)
    (e : error) :
  snd (fst (Dial ctx uri s)) = Some e ->
  fst (fst (Dial ctx uri s)) = None /\
  exists cause,
    collaborator_errors (new_events s (snd (Dial ctx uri s))) = [cause] /\
    (e = fmt_Errorf_w "failed to connect to broker @ %v: %w" [uri] cause \/
     e = fmt_Errorf_w "stomp connect handshake to broker @ %v failed: %w"
           [uri] cause) /\
    errors_Is e cause = true /\
    (forall target, errors_Is cause target = true ->
                    errors_Is e target = true).
Proof.
  intros He.
  destruct (Dial_attempt ctx uri s) as (es & Ht & _ & Ha).
  rewrite (new_events_app _ _ _ Ht).
  destruct (fst (Dial ctx uri s)) as [x err]. simpl in He. subst err.
  destruct (attempt_error_shape _ _ _ _ _ _ Ha) as (Hx & cause & Hc & Hor).
  split; [exact Hx|]. exists cause. split; [exact Hc|].
  split; [exact Hor|].
  unfold dial_failed, handshake_failed in Hor.
  split.
  - destruct Hor; subst e; apply errors_Is_wrap, errors_Is_refl.
  - intros target Ht'. destruct Hor; subst e; apply errors_Is_wrap, Ht'.
Qed.

(** X2. [Dial] returns no error exactly when no collaborator reported one
    during the call. *)
Theorem Dial_succeeds_iff_no_error_reported (ctx : Context) (uri : string)
    (s : State) :
  snd (fst (Dial ctx uri s)) = None <->
  collaborator_errors (new_events s (snd (Dial ctx uri s))) = [].
Proof.
  destruct (Dial_attempt ctx uri s) as (es & Ht & _ & Ha).
  rewrite (new_events_app _ _ _ Ht).
  destruct Ha; simpl; split; intros H; try discriminate; reflexivity.
Qed.

(** X3. When the dial of a call of [Dial] reports an error, that dial is
    all the call does: no handshake is tried and nothing is closed, and the
    call returns the dial error about the address. *)
Theorem failed_dial_ends_attempt (ctx cx : Context) (uri nw a : string)
    (s : State) (d : dialer) (conn : option NetConn) (e : error) :
  In (EvDialContext d cx nw a conn (Some e))
    (new_events s (snd (Dial ctx uri s))) ->
  new_events s (snd (Dial ctx uri s)) =
    [EvDialContext d cx nw a conn (Some e)] /\
  fst (Dial ctx uri s) =
    (None,
     Some (fmt_Errorf_w "failed to connect to broker @ %v: %w" [uri] e)).
Proof.
  intros Hin.
  destruct (Dial_attempt ctx uri s) as (es & Ht & _ & Ha).
  rewrite (new_events_app _ _ _ Ht) in *.
  destruct Ha; simpl in Hin;
    repeat match goal with
           | H : _ \/ _ |- _ => destruct H
           | H : False |- _ => destruct H
           | H : EvDialContext _ _ _ _ _ _ = _ |- _ => inversion H; clear H
           | H : EvConnect _ _ _ _ = _ |- _ => inversion H; clear H
           | H : EvClose _ = _ |- _ => inversion H; clear H
           end; subst.
  split; reflexivity.
Qed.

(** X4. Every call of [Dial] starts with one [DialContext], on network
    [tcp], at the address given, under the context given, through a dialer
    whose timeout is two seconds; it dials no second time. *)
Theorem Dial_dials_once (ctx : Context) (uri : string) (s : State) :
  exists d conn err rest,
    new_events s (snd (Dial ctx uri s)) =
      EvDialContext d ctx "tcp" uri conn err :: rest /\
    dialed_addresses rest = [] /\
    dialer_timeout d = 2000000000%Z.
Proof.
  destruct (Dial_attempt ctx uri s) as (es & Ht & _ & Ha).
  rewrite (new_events_app _ _ _ Ht).
  assert (Hd : dialer_timeout (dialer_of (self s)) = 2000000000%Z).
  { unfold dialer_of. destruct (tls (self s)); reflexivity. }
  destruct Ha; do 4 eexists; (split; [reflexivity|]); split;
    try reflexivity; exact Hd.
Qed.

Lemma walk_error (f : failOver) (ctx : Context) (us : list string)
    (es : list Event) (r : option StompConn * option error) :
  walk f ctx us es r ->
  forall e, snd r = Some e -> r = (None, Some exhausted).
Proof.
  intros H; induction H; intros e0 He; simpl in He.
  - reflexivity.
  - discriminate.
  - eapply IHwalk; eassumption.
Qed.

Lemma walk_accounting (f : failOver) (ctx : Context) (us : list string)
    (es : list Event) (r : option StompConn * option error) :
  walk f ctx us es r ->
  match snd r with
  | Some _ =>
      dialed_addresses es = us /\ map fst (logged es) = us
  | None =>
      exists u rest,
        us = map fst (logged es) ++ u :: rest /\
        dialed_addresses es = map fst (logged es) ++ [u]
  end.
Proof.
  intros H; induction H.
  - simpl. split; reflexivity.
  - simpl. exists u, us.
    rewrite (attempt_logged _ _ _ _ _ H), (attempt_dialed _ _ _ _ _ H).
    split; reflexivity.
  - rewrite dialed_addresses_app, logged_app.
    rewrite (attempt_logged _ _ _ _ _ H), (attempt_dialed _ _ _ _ _ H).
    simpl. destruct (snd r).
    + destruct IHwalk as [Hd Hl]. rewrite Hd, Hl. split; reflexivity.
    + destruct IHwalk as (u' & rest & Hu & Hd).
      exists u', rest. rewrite Hd, Hu at 1. split; reflexivity.
Qed.

Lemma walk_sockets (f : failOver) (ctx : Context) (us : list string)
    (es : list Event) (r : option StompConn * option error) :
  walk f ctx us es r ->
  match snd r with
  | Some _ => forall live, open_sockets live es = live
  | None =>
      exists es0 d c nw a conn o,
        es = es0 ++ [EvDialContext d c nw a conn None;
                     EvConnect conn o (fst r) None] /\
        forall live,
          open_sockets live es =
          match conn with Some k => k :: live | None => live end
  end.
Proof.
  intros H; induction H.
  - simpl. reflexivity.
  - simpl. inversion H; subst.
    exists [], (dialer_of f), ctx, "tcp", u, conn, (login_opts f).
    split; [reflexivity|]. intros live. destruct conn; reflexivity.
  - destruct (snd r) eqn:Hr.
    + intros live. rewrite open_sockets_app.
      rewrite (attempt_error_sockets _ _ _ _ _ _ live H).
      change (open_sockets live (EvDebug ctx u e attempting_next :: es'))
        with (open_sockets live es').
      apply IHwalk.
    + destruct IHwalk as (es0 & d & c & nw & a & conn & o & He & Hs).
      exists (es ++ EvDebug ctx u e attempting_next :: es0),
        d, c, nw, a, conn, o.
      split.
      * rewrite He, <- app_assoc. reflexivity.
      * intros live. rewrite open_sockets_app.
        rewrite (attempt_error_sockets _ _ _ _ _ _ live H).
        change (open_sockets live (EvDebug ctx u e attempting_next :: es'))
          with (open_sockets live es').
        apply Hs.
Qed.

Lemma walk_log_entries (f : failOver) (ctx : Context) (us : list string)
    (es : list Event) (r : option StompConn * option error) :
  walk f ctx us es r -> Forall log_entry_of_failed_attempt es.
Proof.
  intros H; induction H.
  - constructor.
  - destruct H; repeat constructor.
  - apply Forall_app. split.
    + clear IHwalk H0. inversion H; subst; repeat constructor.
    + constructor; [|exact IHwalk].
      destruct (attempt_error_shape _ _ _ _ _ _ H) as (_ & cause & _ & Hor).
      split; [reflexivity|]. exists cause. exact Hor.
Qed.

(** X5. The only error [Connection] returns is the exhaustion error: it
    comes with no connection, and it is the plain [fmt.Errorf] of the
    source, which wraps nothing, so [errors.Is] finds in it no error but
    itself: none of the errors of the attempts can be recovered from it. *)
Theorem Connection_error_is_exhaustion (ctx : Context) (s : State)
    (e : error) :
  snd (fst (Connection ctx s)) = Some e ->
  fst (Connection ctx s) =
    (None,
     Some (fmt_Errorf "exhausted all brokers and unable to make connection"
             [])) /\
  (forall target, errors_Is e target = true -> target = e).
Proof.
  intros He.
  destruct (Connection_walk ctx s) as (es & _ & _ & Hw).
  pose proof (walk_error _ _ _ _ _ Hw e He) as Hr.
  rewrite Hr in He. simpl in He. inversion He; subst e.
  split; [exact Hr|].
  intros target Hi. unfold exhausted in *. cbn [errors_Is] in Hi.
  rewrite Bool.orb_false_r in Hi.
  symmetry. apply error_eqb_eq. exact Hi.
Qed.

(** X6. In every run of [Connection] the brokers logged are the endpoints
    whose attempt failed, a prefix of the endpoint list in list order. When
    an error is returned they are the whole list, and so are the addresses
    dialled; otherwise the addresses dialled are those logged followed by
    the next endpoint of the list, the one that succeeded. *)
Theorem Connection_dials_and_logs_prefix (ctx : Context) (s : State) :
  match snd (fst (Connection ctx s)) with
  | Some _ =>
      dialed_addresses (new_events s (snd (Connection ctx s)))
      = uris (self s) /\
      map fst (logged (new_events s (snd (Connection ctx s))))
      = uris (self s)
  | None =>
      exists u rest,
        uris (self s) =
          map fst (logged (new_events s (snd (Connection ctx s))))
          ++ u :: rest /\
        dialed_addresses (new_events s (snd (Connection ctx s))) =
          map fst (logged (new_events s (snd (Connection ctx s)))) ++ [u]
  end.
Proof.
  destruct (Connection_walk ctx s) as (es & Ht & _ & Hw).
  rewrite (new_events_app _ _ _ Ht).
  exact (walk_accounting _ _ _ _ _ Hw).
Qed.

(** X7. Sockets balance over a run of [Connection]. When it returns an
    error, the sockets open after the run are those open before it. When it
    returns a connection, the run ends on the dial and the handshake behind
    that connection, and the one socket it leaves open beyond those open
    before is the transport of that dial. *)
Theorem Connection_socket_balance (ctx : Context) (s : State) :
  match snd (fst (Connection ctx s)) with
  | Some _ =>
      forall live,
        open_sockets live (new_events s (snd (Connection ctx s))) = live
  | None =>
      exists es0 d c nw a conn o,
        new_events s (snd (Connection ctx s)) =
          es0 ++ [EvDialContext d c nw a conn None;
                  EvConnect conn o (fst (fst (Connection ctx s))) None] /\
        forall live,
          open_sockets live (new_events s (snd (Connection ctx s))) =
          match conn with Some k => k :: live | None => live end
  end.
Proof.
  destruct (Connection_walk ctx s) as (es & Ht & _ & Hw).
  rewrite (new_events_app _ _ _ Ht).
  exact (walk_sockets _ _ _ _ _ Hw).
Qed.

(** X8. Every dial and every log entry of a run of [Connection] is made
    under the caller's context as tagged by [Connection]: the [Err] of the
    caller's context, the baggage member [component] set to the name of the
    method, whatever it was before, and every other member as the caller
    has it. The run begins with the dial of the first endpoint, under that
    context; it does nothing when there is no endpoint. *)
Theorem Connection_propagates_context (ctx : Context) (s : State) :
  Forall (under_caller_context ctx)
    (new_events s (snd (Connection ctx s))) /\
  match uris (self s) with
  | [] => new_events s (snd (Connection ctx s)) = []
  | u :: _ =>
      exists d c conn err rest,
        new_events s (snd (Connection ctx s)) =
        EvDialContext d c "tcp" u conn err :: rest /\
        ctx_Err c = ctx_Err ctx /\
        ctx_baggage c "component" =
          Some "notifier/stomp/failOver.Connection" /\
        forall key,
          key <> "component" -> ctx_baggage c key = ctx_baggage ctx key
  end.
Proof.
  assert (Hc : ctx_Err (Connection_ctx ctx) = ctx_Err ctx /\
               ctx_baggage (Connection_ctx ctx) "component" =
                 Some "notifier/stomp/failOver.Connection" /\
               forall key,
                 key <> "component" ->
                 ctx_baggage (Connection_ctx ctx) key = ctx_baggage ctx key).
  { split; [reflexivity|]. split; [reflexivity|].
    intros key Hk. unfold Connection_ctx, zlog_ContextWithValues.
    cbn [ctx_baggage].
    destruct (String.eqb_spec key "component"); [contradiction|reflexivity]. }
  split.
  - destruct (Connection_walk ctx s) as (es & Ht & _ & Hw).
    rewrite (new_events_app _ _ _ Ht).
    eapply walk_Forall; [| | | | exact Hw]; intros; try exact Hc; exact I.
  - pose proof (Connection_starts_with_Dial ctx s) as Hs.
    destruct (uris (self s)) as [|u us]; [exact Hs|].
    destruct Hs as (rest & Hs).
    destruct (Dial_events (Connection_ctx ctx) u s) as (rest' & He).
    rewrite He in Hs.
    do 5 eexists. split; [exact Hs | exact Hc].
Qed.

(** X9. Every log entry of a run of [Connection] carries the message of the
    loop and an error [Dial] makes about the broker the entry names: the
    dial error or the handshake error for that address, wrapping a cause. *)
Theorem Connection_log_entries (ctx : Context) (s : State) :
  Forall log_entry_of_failed_attempt
    (new_events s (snd (Connection ctx s))).
Proof.
  destruct (Connection_walk ctx s) as (es & Ht & _ & Hw).
  rewrite (new_events_app _ _ _ Ht).
  exact (walk_log_entries _ _ _ _ _ Hw).
Qed.

Lemma Dial_with_uris (ctx : Context) (u : string) (us : list string)
    (s : State) :
  Dial ctx u (with_uris us s) =
  (fst (Dial ctx u s), with_uris us (snd (Dial ctx u s))).
Proof.
  rewrite !Dial_unfold. cbv zeta.
  change (dialer_of (self (with_uris us s))) with (dialer_of (self s)).
  change (login_opts (self (with_uris us s))) with (login_opts (self s)).
  change (world (with_uris us s)) with (world s).
  destruct (dialer_DialContext _ ctx "tcp" u (world s))
    as [[conn [e|]] w1]; [reflexivity|].
  destruct (gostomp_Connect conn _ w1) as [[sc [e|]] w2];
    [destruct conn|]; reflexivity.
Qed.

Lemma Connection_range_with_uris (ctx : Context) (us l : list string) :
  forall s : State,
  Connection_range ctx l (with_uris us s) =
  (fst (Connection_range ctx l s),
   with_uris us (snd (Connection_range ctx l s))).
Proof.
  induction l as [|u l IH]; intros s; [reflexivity|].
  rewrite !Connection_range_cons, Dial_with_uris.
  destruct (Dial ctx u s) as [[conn [e|]] s1]; cbn [fst snd];
    [|reflexivity].
  apply (IH (snd (zlog_Debug ctx u e attempting_next s1))).
Qed.

Lemma Connection_range_app (ctx : Context) (a b : list string) :
  forall s : State,
  Connection_range ctx (a ++ b) s =
  match Connection_range ctx a s with
  | ((conn, None), s1) => ((conn, None), s1)
  | ((_, Some _), s1) => Connection_range ctx b s1
  end.
Proof.
  induction a as [|u a IH]; intros s; [reflexivity|].
  simpl app. rewrite !Connection_range_cons.
  destruct (Dial ctx u s) as [[conn [e|]] s1]; [apply IH | reflexivity].
Qed.

(** X10. Failing over a list [a ++ b] is failing over [a] and, should that
    exhaust [a], failing over [b] from the state then reached: the same
    result, the same world, the same trace. *)
Theorem Connection_over_concatenation (ctx : Context) (a b : list string)
    (s : State) :
  Connection ctx (with_uris (a ++ b) s) =
  match Connection ctx (with_uris a s) with
  | ((conn, None), s1) => ((conn, None), with_uris (a ++ b) s1)
  | ((_, Some _), s1) =>
      (fst (Connection ctx (with_uris b s1)),
       with_uris (a ++ b) (snd (Connection ctx (with_uris b s1))))
  end.
Proof.
  rewrite !Connection_unfold.
  change (uris (self (with_uris (a ++ b) s))) with (a ++ b).
  change (uris (self (with_uris a s))) with a.
  rewrite !Connection_range_with_uris, Connection_range_app.
  destruct (Connection_range (Connection_ctx ctx) a s)
    as [[conn [e|]] s1]; cbn [fst snd]; [|reflexivity].
  rewrite Connection_unfold.
  change (uris (self (with_uris b (with_uris a s1)))) with b.
  change (with_uris b (with_uris a s1)) with (with_uris b s1).
  rewrite Connection_range_with_uris. reflexivity.
Qed.

Lemma attempt_length (f : failOver) (ctx : Context) (u : string)
    (es : list Event) (r : option StompConn * option error) :
  attempt f ctx u es r -> 1 <= length es <= 3.
Proof. intros H; destruct H; simpl; lia. Qed.

Lemma walk_length (f : failOver) (ctx : Context) (us : list string)
    (es : list Event) (r : option StompConn * option error) :
  walk f ctx us es r -> length es <= 4 * length us.
Proof.
  intros H; induction H.
  - simpl. lia.
  - apply attempt_length in H. simpl length. lia.
  - apply attempt_length in H. rewrite length_app. simpl length. lia.
Qed.

(** X11. The work of a call is bounded: [Dial] calls its collaborators at
    least once and at most three times (dial, handshake, close), and
    [Connection] makes at most four calls per endpoint of the list, the log
    entry included. *)
Theorem calls_bounded (ctx : Context) (uri : string) (s : State) :
  1 <= length (new_events s (snd (Dial ctx uri s))) <= 3 /\
  length (new_events s (snd (Connection ctx s)))
  <= 4 * length (uris (self s)).
Proof.
  split.
  - destruct (Dial_attempt ctx uri s) as (es & Ht & _ & Ha).
    rewrite (new_events_app _ _ _ Ht). eapply attempt_length; eassumption.
  - destruct (Connection_walk ctx s) as (es & Ht & _ & Hw).
    rewrite (new_events_app _ _ _ Ht). eapply walk_length; eassumption.
Qed.

End Behaviour.

(** ** The contract on the scripted network *)

Section Scenarios.

Import Sim.

Lemma Connection_first_success_witness :
  exists s',
    Connection background s3 = ((Some conn3, None), s') /\
    dialed_addresses (new_events s3 s') = three.
Proof.
  edestruct (@Connection_first_success (runtime net3) background s3)
    with (pre := ["b1:61613"; "b2:61613"]) (post := @nil string)
         (u := "b3:61613") (sc := Some conn3)
    as (H1 & H2 & _);
    [reflexivity | cbv; reflexivity | cbv; reflexivity |].
  eexists. split; [exact H1 | exact H2].
Defined.

Lemma Connection_all_fail_witness :
  exists s_n,
    Connection background s_down = ((None, Some exhausted), s_n) /\
    dialed_addresses (new_events s_down s_n) = three.
Proof.
  eexists.
  apply (@Connection_all_fail (runtime net_down) background s_down).
  reflexivity.
Defined.

Lemma Connection_no_endpoints_witness :
  Connection background s_none = ((None, Some exhausted), s_none) /\
  new_events s_none (snd (Connection background s_none)) = [].
Proof.
  apply (@Connection_no_endpoints (runtime net_up) background s_none).
  reflexivity.
Defined.

Lemma no_connection_without_handshake_witness :
  (exists conn,
      new_events s3 (snd (Dial background "b3:61613" s3)) =
      [EvDialContext (dialer_of f3) background "tcp" "b3:61613" conn None;
       EvConnect conn (login_opts f3) (Some ((0, "b3:61613"),
                                             login_opts f3)) None]) /\
  (exists es u conn,
      In u three /\
      new_events s3 (snd (Connection background s3)) =
      es ++ [EvDialContext (dialer_of f3) (Connection_ctx background) "tcp" u
               conn None;
             EvConnect conn (login_opts f3) (Some conn3) None]).
Proof.
  split.
  - apply (@no_connection_without_handshake (runtime net3) background
             "b3:61613" s3 (Some ((0, "b3:61613"), login_opts f3))).
    reflexivity.
  - apply (@no_connection_without_handshake (runtime net3) background
             "b3:61613" s3 (Some conn3)).
    reflexivity.
Defined.

Lemma failed_handshake_closes_transport_witness :
  fst (Dial background "b2:61613" s3) =
    (None,
     Some (handshake_failed "b2:61613" (ExternalError "handshake rejected"))) /\
  new_events s3 (snd (Dial background "b2:61613" s3)) =
    [EvDialContext (dialer_of f3) background "tcp" "b2:61613" (Some conn2)
       None;
     EvConnect (Some conn2) (login_opts f3) None
       (Some (ExternalError "handshake rejected"));
     EvClose conn2] /\
  (forall live,
      open_sockets live (new_events s3 (snd (Dial background "b2:61613" s3)))
      = live) /\
  failed_handshakes_closed (new_events s3 (snd (Connection background s3)))
  = true.
Proof.
  apply (@failed_handshake_closes_transport (runtime net3) background
           background background "b2:61613" "tcp" "b2:61613" s3 s3
           (dialer_of f3) conn2 (login_opts f3) None
           (ExternalError "handshake rejected")).
  - left. reflexivity.
  - right. left. reflexivity.
Defined.

Lemma results_exclusive_witness :
  exclusive (fst (Dial background "b1:61613" s3)) = true /\
  exclusive (fst (Connection background s3)) = true.
Proof.
  apply (@results_exclusive (runtime net3) background "b1:61613" s3).
  intros [[n a]|] opts w; simpl; [|discriminate].
  destruct (net3 a); simpl; discriminate.
Defined.

Lemma Connection_under_done_context_witness :
  fst (Connection cancelled s_up) = (None, Some exhausted) /\
  is_cancellation exhausted = false /\
  dialed_addresses (new_events s_up (snd (Connection cancelled s_up)))
  = three /\
  Forall (refused_dial_or_log (Some context_Canceled))
    (new_events s_up (snd (Connection cancelled s_up))) /\
  (forall live,
      open_sockets live (new_events s_up (snd (Connection cancelled s_up)))
      = live) /\
  (exists causes,
      map fst causes = three /\
      new_events s_up (snd (Connection cancelled s_up)) =
      refused_run f_up (Connection_ctx cancelled) causes) /\
  map fst (logged (new_events s_up (snd (Connection cancelled s_up))))
  = three.
Proof.
  apply (@Connection_under_done_context (runtime net_up) cancelled s_up).
  - discriminate.
  - intros nd cfg c nw a w Hc. simpl.
    destruct (ctx_Err c) as [e|]; [exists e; reflexivity | congruence].
Defined.

Lemma credentials_on_every_handshake_witness :
  (Forall (handshake_with [ConnOpt_Login "clair" "secret"])
     (new_events s3 (snd (Connection background s3))) /\
   In (EvConnect (Some conn2) [ConnOpt_Login "clair" "secret"] None
         (Some (ExternalError "handshake rejected")))
     (new_events s3 (snd (Connection background s3))) /\
   In (EvConnect (Some transport3) [ConnOpt_Login "clair" "secret"]
         (Some conn3) None)
     (new_events s3 (snd (Connection background s3)))) /\
  (Forall (handshake_with [])
     (new_events s_up (snd (Connection background s_up))) /\
   In (EvConnect (Some transport_up) [] (Some conn_up) None)
     (new_events s_up (snd (Connection background s_up)))).
Proof.
  split.
  - split.
    + apply (@credentials_on_every_handshake (runtime net3) background
               "b3:61613" s3).
    + split; vm_compute; auto 10.
  - split.
    + apply (@credentials_on_every_handshake (runtime net_up) background
               "b1:61613" s_up).
    + vm_compute; auto 10.
Defined.

Lemma tls_selected_by_config_witness :
  (Forall (dialed_with (Some tls_down))
     (new_events s_down (snd (Connection background s_down))) /\
   In (EvDialContext
         (TlsDialer {| Timeout := 2000000000 |} tls_down)
         (Connection_ctx background) "tcp" "b1:61613" None
         (Some (ExternalError "connection refused")))
     (new_events s_down (snd (Connection background s_down)))) /\
  (Forall (dialed_with None)
     (new_events s3 (snd (Connection background s3))) /\
   In (EvDialContext (NetDialer {| Timeout := 2000000000 |})
         (Connection_ctx background) "tcp" "b3:61613"
         (Some transport3) None)
     (new_events s3 (snd (Connection background s3)))).
Proof.
  split.
  - split.
    + apply (@tls_selected_by_config (runtime net_down) background
               "b1:61613" s_down).
    + left. reflexivity.
  - split.
    + apply (@tls_selected_by_config (runtime net3) background
               "b3:61613" s3).
    + do 6 right. left. reflexivity.
Defined.

(** C3, as the claim has it, fails: under a caller context cancelled before
    the call, with every broker up, [Connection] does not return a
    cancellation error, and after the first attempt was refused for the
    cancellation it goes on to dial the second and the third endpoint. *)
Lemma cancelled_Connection_tries_every_endpoint :
  ctx_Err cancelled = Some context_Canceled /\
  ~ (exists e,
        fst (Connection cancelled s_up) = (None, Some e) /\
        is_cancellation e = true) /\
  dialed_addresses (new_events s_up (snd (Connection cancelled s_up)))
  = ["b1:61613"; "b2:61613"; "b3:61613"].
Proof.
  split; [reflexivity|]. split; [|reflexivity].
  intros (e & H1 & H2). vm_compute in H1. inversion H1; subst e.
  discriminate H2.
Qed.

End Scenarios.

(** ** The further properties on the scripted network *)

Section MoreScenarios.

Import Sim.

Lemma Dial_error_wraps_cause_witness :
  fst (fst (Dial background "b2:61613" s3)) = None /\
  exists cause,
    collaborator_errors (new_events s3 (snd (Dial background "b2:61613" s3)))
    = [cause] /\
    (handshake_failed "b2:61613" (ExternalError "handshake rejected") =
       fmt_Errorf_w "failed to connect to broker @ %v: %w" ["b2:61613"] cause
     \/
     handshake_failed "b2:61613" (ExternalError "handshake rejected") =
       fmt_Errorf_w "stomp connect handshake to broker @ %v failed: %w"
         ["b2:61613"] cause) /\
    errors_Is
      (handshake_failed "b2:61613" (ExternalError "handshake rejected"))
      cause = true /\
    (forall target,
        errors_Is cause target = true ->
        errors_Is
          (handshake_failed "b2:61613" (ExternalError "handshake rejected"))
          target = true).
Proof.
  apply (@Dial_error_wraps_cause (runtime net3) background "b2:61613" s3).
  reflexivity.
Defined.

Lemma failed_dial_ends_attempt_witness :
  new_events s3 (snd (Dial background "b1:61613" s3)) =
    [EvDialContext (dialer_of f3) background "tcp" "b1:61613" None
       (Some (ExternalError "connection refused"))] /\
  fst (Dial background "b1:61613" s3) =
    (None,
     Some (fmt_Errorf_w "failed to connect to broker @ %v: %w" ["b1:61613"]
             (ExternalError "connection refused"))).
Proof.
  apply (@failed_dial_ends_attempt (runtime net3) background background
           "b1:61613" "tcp" "b1:61613" s3 (dialer_of f3) None
           (ExternalError "connection refused")).
  left. reflexivity.
Defined.

Lemma Connection_error_is_exhaustion_witness :
  fst (Connection background s_down) =
    (None,
     Some (fmt_Errorf "exhausted all brokers and unable to make connection"
             [])) /\
  (forall target, errors_Is exhausted target = true -> target = exhausted).
Proof.
  apply (@Connection_error_is_exhaustion (runtime net_down) background
           s_down exhausted).
  reflexivity.
Defined.

Lemma Connection_propagates_context_witness :
  Forall (under_caller_context tagged)
    (new_events s3 (snd (Connection tagged s3))) /\
  exists d c conn err rest,
    new_events s3 (snd (Connection tagged s3)) =
    EvDialContext d c "tcp" "b1:61613" conn err :: rest /\
    ctx_baggage c "component" = Some "notifier/stomp/failOver.Connection" /\
    ctx_baggage c "request" = Some "42".
Proof.
  destruct (@Connection_propagates_context (runtime net3) tagged s3)
    as [Hall Hfirst].
  split; [exact Hall|].
  destruct Hfirst as (d & c & conn & err & rest & He & _ & Hc & Hk).
  exists d, c, conn, err, rest.
  split; [exact He|]. split; [exact Hc|].
  rewrite Hk; [reflexivity | discriminate].
Defined.

End MoreScenarios.
